(** * Syncthing integration: the REST data source, the diff modal and the
      conflict-files modal, embedded from the TypeScript sources.

    - [Js]: the JavaScript values the sources pass around (JSON bodies, thrown
      values) and [Array.prototype.sort] / [slice].
    - [Rest]: [SyncthingFromREST] (the remote data source).
    - [Obsidian]: the host's files and its asynchronous file store.
    - [Diff]: [DiffModal] of [views/syncthing_diff.ts].
    - [ConflictFiles]: [ConflictFilesModal] of [main.ts].
    - [DiffEngine]: the line diff that the views obtain from the [diff]
      package. *)

From Stdlib Require Import ZArith String List Ascii Bool Lia.
From stdpp Require Import base option list gmap strings relations sorting.

Set Warnings "-register-all".
Local Open Scope string_scope.
Local Open Scope list_scope.
Local Open Scope Z_scope.

(* ===================================================================== *)
(** ** JavaScript values *)
(* ===================================================================== *)
Module Js.

(** A parsed JSON body ([response.json]). *)
Inductive Json :=
| JNull
| JBool (b : bool)
| JNumber (n : Z)
| JString (s : string)
| JArray (items : list Json)
| JObject (members : list (string * Json)).

(** Values that are thrown, or that a promise is rejected with.  A
    [RestFailure] is built by [new RestFailure(x)] from its one argument;
    the class itself lives in [src/models/failures], so only the class tag
    and the constructor argument are kept. *)
Inductive Value :=
| VUndefined
| VString (s : string)
| VJson (j : Json)
| VError (name message : string)
| RestFailure (message : Value).

(** The class of a thrown value, as [instanceof] or [constructor.name] tells
    it; strings and plain data have none. *)
Definition class_of (v : Value) : option string :=
  match v with
  | RestFailure _ => Some "RestFailure"
  | VError name _ => Some name
  | _ => None
  end.

(** The newline used by [join("\n")]. *)
Definition newline : string := String (ascii_of_nat 10) EmptyString.

(** [array.join(sep)] on an array of strings. *)
Definition join (sep : string) (l : list string) : string := String.concat sep l.

(** Own-property lookup in a parsed object; [JSON.parse] keeps the last of
    repeated keys. *)
Fixpoint lookup_member (key : string) (members : list (string * Json)) : option Json :=
  match members with
  | [] => None
  | (k, v) :: rest =>
      match lookup_member key rest with
      | Some v' => Some v'
      | None => if String.eqb k key then Some v else None
      end
  end.

(** [Array.prototype.sort(compareFn)]: the sort is stable, and an element [a]
    goes after [b] exactly when [compareFn(a, b) > 0].  For a comparator that
    is a total preorder (as [a.stat.mtime - b.stat.mtime] on integral
    timestamps) every conforming engine yields this list. *)
Fixpoint sort_insert {A} (compareFn : A -> A -> Z) (a : A) (l : list A) : list A :=
  match l with
  | [] => [a]
  | b :: rest => if compareFn a b >? 0 then b :: sort_insert compareFn a rest else a :: b :: rest
  end.

Definition sort {A} (compareFn : A -> A -> Z) (l : list A) : list A :=
  foldr (sort_insert compareFn) [] l.

(** A relative index of [slice], clamped to the array. *)
Definition clamp_index (len k : Z) : nat :=
  Z.to_nat (if k <? 0 then Z.max (len + k) 0 else Z.min k len).

(** [Array.prototype.slice(start, end)]. *)
Definition slice {A} (start end_ : Z) (l : list A) : list A :=
  let len := Z.of_nat (length l) in
  let from := clamp_index len start in
  let to := clamp_index len end_ in
  take (to - from)%nat (drop from l).

End Js.

(* ===================================================================== *)
(** ** The remote data source: [SyncthingFromREST] *)
(* ===================================================================== *)
Module Rest.
Import Js.

(** Modelled from the spec: the persisted settings layout
    [{ api_key: string|null, url: {protocol, ip_address, port} }] (the plugin
    class that declares it is not part of the sources). *)
Record Url := { protocol : string; ip_address : string; port : string }.
Record Settings := { api_key : option string; url : option Url }.

(** The argument of Obsidian's [requestUrl]. *)
Record RequestUrlParam := {
  req_url : string;
  method : string;
  headers : list (string * option string) }.

(** The fields of a [RequestUrlResponse] the data source reads. *)
Record Response := { status : Z; text : string; json : Json }.

(** A promise, by the way it settles. *)
Inductive Promise (A : Type) :=
| Resolved (a : A)
| Rejected (reason : Value).
Arguments Resolved {A} a.
Arguments Rejected {A} reason.

(** Modelled from the spec: the entities of section 6,
    folders [{id, path, devices:[{deviceID}], ...}], devices
    [{deviceID, name, ...}], the configuration (folders and devices) and the
    system status with this device's own ID; [src/models/entities] is not
    part of the sources, only the fields the data source reads matter. *)
Record FolderDevice := { deviceInFolder_deviceID : string }.
Record Folder := { id : string; path : string; devices : list FolderDevice }.
Record Device := { deviceID : string; name : string }.
Record Configuration := { config_folders : list Folder; config_devices : list Device }.
Record SystemStatus := { myID : string }.

(** The valibot schemas the data source names, indexed by their [Output]. *)
Inductive Schema : Type -> Type :=
| SyncthingFolder : Schema Folder
| SyncthingDevice : Schema Device
| SyncthingConfiguration : Schema Configuration
| SyncthingSystemStatus : Schema SystemStatus
| array {T : Type} (item : Schema T) : Schema (list T).

(** The result of valibot's [safeParseAsync]. *)
Record Issue := { message : string }.
Inductive SafeParseResult (T : Type) :=
| ParseSuccess (output : T)
| ParseFailure (issues : list Issue).
Arguments ParseSuccess {T} output.
Arguments ParseFailure {T} issues.

(** What surrounds a call: the plugin's settings, the platform, how the host
    answers an HTTP request, and the validator library. *)
Record World := {
  settings : Settings;
  isMobileApp : bool;
  requestUrl : RequestUrlParam -> Promise Response;
  safeParseAsync : forall T : Type, Schema T -> Json -> SafeParseResult T }.

(** What a call does besides its result.  Console lines keep their label. *)
Inductive Event :=
| ConsoleLog (label : string)
| ConsoleError (label : string)
| HttpRequest (param : RequestUrlParam).

Inductive Outcome (A : Type) :=
| Returned (a : A)
| Thrown (e : Value).
Arguments Returned {A} a.
Arguments Thrown {A} e.

(** An [async] method: it reads the world, leaves a trace and returns or
    throws. *)
Definition M (A : Type) : Type := World -> list Event * Outcome A.

Definition ret {A} (a : A) : M A := fun _ => ([], Returned a).
Definition throw {A} (e : Value) : M A := fun _ => ([], Thrown e).
Definition bind {A B} (m : M A) (k : A -> M B) : M B :=
  fun w =>
    match m w with
    | (ev, Returned a) => let '(ev', r) := k a w in (ev ++ ev', r)
    | (ev, Thrown e) => (ev, Thrown e)
    end.
Definition ask : M World := fun w => ([], Returned w).
Definition emit (e : Event) : M unit := fun _ => ([e], Returned tt).

Notation "'do' x <- m ;; k" := (bind m (fun x => k))
  (at level 10, x name, m at level 99, k at level 200, only parsing).

Definition events {A} (r : list Event * Outcome A) : list Event := fst r.
Definition outcome {A} (r : list Event * Outcome A) : Outcome A := snd r.

(** [promise.then(onFulfilled)], awaited. *)
Definition promise_then {A B} (p : Promise A) (onFulfilled : A -> M B) : M B :=
  match p with
  | Resolved a => onFulfilled a
  | Rejected reason => throw reason
  end.

(** [promise.catch(onRejected)], awaited: the handler sees whatever the
    chain before it threw. *)
Definition promise_catch {A} (m : M A) (onRejected : Value -> M A) : M A :=
  fun w =>
    match m w with
    | (ev, Returned a) => (ev, Returned a)
    | (ev, Thrown e) => let '(ev', r) := onRejected e w in (ev ++ ev', r)
    end.

(** [`${x}`] of a possibly-undefined string. *)
Definition template (x : option string) : string :=
  match x with Some s => s | None => "undefined" end.

Definition option_eqb (x : option string) (s : string) : bool :=
  match x with Some x' => String.eqb x' s | None => false end.

Definition requestEndpoint (endpoint : string) : M Response :=
  do _ <- emit (ConsoleLog "requestEndpoint: Endpoint") ;;
  do w <- ask ;;
  let ip_address0 := ip_address <$> url (settings w) in
  let ip_address1 :=
    if option_eqb ip_address0 "localhost" && isMobileApp w
    then Some "127.0.0.1" else ip_address0 in
  let url_ :=
    template (protocol <$> url (settings w)) +:+ "://" +:+ template ip_address1
      +:+ ":" +:+ template (port <$> url (settings w)) +:+ endpoint in
  let param := {|
    req_url := url_;
    method := "GET";
    headers := [("X-API-Key", api_key (settings w));
                ("Accept", Some "*/*");
                ("Content-Type", Some "application/json");
                ("Access-Control-Allow-Origin", Some "*");
                ("redirect", Some "follow")] |} in
  do _ <- emit (HttpRequest param) ;;
  let response := requestUrl w param in
  do _ <- emit (ConsoleLog "requestEndpoint: API Key set ?") ;;
  do _ <- emit (ConsoleLog "requestEndpoint: url requested ") ;;
  promise_catch
    (promise_then response (fun response =>
       do _ <- emit (ConsoleLog "requestEndpoint: response ") ;;
       if status response >=? 400
       then throw (RestFailure (VString (text response)))
       else ret response))
    (fun error =>
       do _ <- emit (ConsoleError "requestEndpoint: error: ") ;;
       throw (RestFailure error)).

(** [json[key]] for a key that is no index and no built-in property: a
    member of an object, [undefined] on any other value, a [TypeError] on
    [null]. *)
Definition get_property (j : Json) (key : string) : M Value :=
  match j with
  | JNull => throw (VError "TypeError" "Cannot read properties of null")
  | JObject members =>
      ret (match lookup_member key members with
           | Some (JString s) => VString s
           | Some v => VJson v
           | None => VUndefined
           end)
  | _ => ret VUndefined
  end.

Definition ping : M Value :=
  do response <- requestEndpoint "/rest/system/ping" ;;
  do _ <- emit (ConsoleLog "REST - ping: ") ;;
  get_property (json response) "ping".

(** [result.issues.map((issue) => issue.message).join("\n")] *)
Definition issues_message (issues : list Issue) : string :=
  join newline (map message issues).

Definition getAllFolders : M (list Folder) :=
  do response <- requestEndpoint "/rest/config/folders" ;;
  do w <- ask ;;
  match safeParseAsync w _ (array SyncthingFolder) (json response) with
  | ParseFailure issues =>
      do _ <- emit (ConsoleError "getAllFolders ERROR: ") ;;
      throw (RestFailure (VString (issues_message issues)))
  | ParseSuccess output => ret output
  end.

Definition getFoldersForDevice (device : Device) : M (list Folder) :=
  do folders <- getAllFolders ;;
  ret (List.filter
         (fun folder =>
            existsb (fun deviceInFolder =>
                       String.eqb (deviceInFolder_deviceID deviceInFolder) (deviceID device))
                    (devices folder))
         folders).

Definition getDevices : M (list Device) :=
  do response <- requestEndpoint "/rest/config/devices" ;;
  do w <- ask ;;
  match safeParseAsync w _ (array SyncthingDevice) (json response) with
  | ParseFailure issues =>
      do _ <- emit (ConsoleError "getDevices ERROR: ") ;;
      throw (RestFailure (VString (issues_message issues)))
  | ParseSuccess output => ret output
  end.

Definition getConfiguration : M Configuration :=
  do response <- requestEndpoint "/rest/config" ;;
  do w <- ask ;;
  match safeParseAsync w _ SyncthingConfiguration (json response) with
  | ParseFailure issues =>
      do _ <- emit (ConsoleError "getConfiguration ERROR: ") ;;
      throw (RestFailure (VString (issues_message issues)))
  | ParseSuccess output => ret output
  end.

Definition getSystemStatus : M SystemStatus :=
  do response <- requestEndpoint "/rest/system/status" ;;
  do w <- ask ;;
  match safeParseAsync w _ SyncthingSystemStatus (json response) with
  | ParseFailure issues =>
      do _ <- emit (ConsoleError "getSystemStatus ERROR: ") ;;
      throw (RestFailure (VString (issues_message issues)))
  | ParseSuccess output => ret output
  end.

(** The resource methods that validate, with the endpoint each requests and
    the schema each hands to [safeParseAsync]. *)
Inductive ResourceMethod : Type -> Type :=
| GetAllFolders : ResourceMethod (list Folder)
| GetDevices : ResourceMethod (list Device)
| GetConfiguration : ResourceMethod Configuration
| GetSystemStatus : ResourceMethod SystemStatus.

Definition call {T} (m : ResourceMethod T) : M T :=
  match m with
  | GetAllFolders => getAllFolders
  | GetDevices => getDevices
  | GetConfiguration => getConfiguration
  | GetSystemStatus => getSystemStatus
  end.

Definition endpoint_of {T} (m : ResourceMethod T) : string :=
  match m with
  | GetAllFolders => "/rest/config/folders"
  | GetDevices => "/rest/config/devices"
  | GetConfiguration => "/rest/config"
  | GetSystemStatus => "/rest/system/status"
  end.

Definition schema_of {T} (m : ResourceMethod T) : Schema T :=
  match m with
  | GetAllFolders => array SyncthingFolder
  | GetDevices => array SyncthingDevice
  | GetConfiguration => SyncthingConfiguration
  | GetSystemStatus => SyncthingSystemStatus
  end.

(** The request [requestEndpoint] sends for an endpoint. *)
Definition request_of (w : World) (endpoint : string) : RequestUrlParam :=
  let ip_address0 := ip_address <$> url (settings w) in
  let ip_address1 :=
    if option_eqb ip_address0 "localhost" && isMobileApp w
    then Some "127.0.0.1" else ip_address0 in
  {| req_url :=
       template (protocol <$> url (settings w)) +:+ "://" +:+ template ip_address1
         +:+ ":" +:+ template (port <$> url (settings w)) +:+ endpoint;
     method := "GET";
     headers := [("X-API-Key", api_key (settings w));
                 ("Accept", Some "*/*");
                 ("Content-Type", Some "application/json");
                 ("Access-Control-Allow-Origin", Some "*");
                 ("redirect", Some "follow")] |}.

(** The trace of [requestEndpoint] up to the moment the promise settles. *)
Definition preamble (w : World) (endpoint : string) : list Event :=
  [ConsoleLog "requestEndpoint: Endpoint";
   HttpRequest (request_of w endpoint);
   ConsoleLog "requestEndpoint: API Key set ?";
   ConsoleLog "requestEndpoint: url requested "].

Definition is_request (e : Event) : bool :=
  match e with HttpRequest _ => true | _ => false end.

(** The HTTP requests of a trace, in order. *)
Definition requests (ev : list Event) : list Event := List.filter is_request ev.

(** Modelled from the spec: the kinds of the Failure taxonomy of sections 3
    and 7 ([src/models/failures] is not part of the sources). *)
Inductive FailureKind := transport | validation | not_found | filesystem.

(** *** A validator and some daemons to run the data source against *)

Definition invalid_type : Issue := {| message := "Invalid type" |}.

Definition as_string (j : option Json) : option string :=
  match j with Some (JString s) => Some s | _ => None end.

Definition parse_folder_device (j : Json) : option FolderDevice :=
  match j with
  | JObject members =>
      d ← as_string (lookup_member "deviceID" members);
      Some {| deviceInFolder_deviceID := d |}
  | _ => None
  end.

Definition parse_folder (j : Json) : option Folder :=
  match j with
  | JObject members =>
      i ← as_string (lookup_member "id" members);
      p ← as_string (lookup_member "path" members);
      ds ← match lookup_member "devices" members with
           | Some (JArray items) => mapM parse_folder_device items
           | _ => None
           end;
      Some {| id := i; path := p; devices := ds |}
  | _ => None
  end.

Definition parse_device (j : Json) : option Device :=
  match j with
  | JObject members =>
      d ← as_string (lookup_member "deviceID" members);
      n ← as_string (lookup_member "name" members);
      Some {| deviceID := d; name := n |}
  | _ => None
  end.

Definition parse_configuration (j : Json) : option Configuration :=
  match j with
  | JObject members =>
      fs ← match lookup_member "folders" members with
           | Some (JArray items) => mapM parse_folder items
           | _ => None
           end;
      ds ← match lookup_member "devices" members with
           | Some (JArray items) => mapM parse_device items
           | _ => None
           end;
      Some {| config_folders := fs; config_devices := ds |}
  | _ => None
  end.

Definition parse_system_status (j : Json) : option SystemStatus :=
  match j with
  | JObject members =>
      i ← as_string (lookup_member "myID" members);
      Some {| myID := i |}
  | _ => None
  end.

Definition of_option {T} (o : option T) : SafeParseResult T :=
  match o with Some v => ParseSuccess v | None => ParseFailure [invalid_type] end.

(** An array is valid when each item is; every bad item adds its issues. *)
Fixpoint collect {T} (rs : list (SafeParseResult T)) : SafeParseResult (list T) :=
  match rs with
  | [] => ParseSuccess []
  | r :: rest =>
      match r, collect rest with
      | ParseSuccess v, ParseSuccess vs => ParseSuccess (v :: vs)
      | ParseSuccess _, ParseFailure is_ => ParseFailure is_
      | ParseFailure is_, ParseSuccess _ => ParseFailure is_
      | ParseFailure is_, ParseFailure is' => ParseFailure (is_ ++ is')
      end
  end.

(** Modelled from the spec: a validator for the shapes of section 6, standing
    in for valibot and the schemas of [src/models/entities]. *)
Fixpoint shape_safeParseAsync (T : Type) (schema : Schema T) (j : Json) : SafeParseResult T :=
  match schema in Schema T0 return SafeParseResult T0 with
  | SyncthingFolder => of_option (parse_folder j)
  | SyncthingDevice => of_option (parse_device j)
  | SyncthingConfiguration => of_option (parse_configuration j)
  | SyncthingSystemStatus => of_option (parse_system_status j)
  | @array T0 item =>
      match j with
      | JArray items => collect (map (shape_safeParseAsync T0 item) items)
      | _ => ParseFailure [invalid_type]
      end
  end.

Definition local_settings : Settings :=
  {| api_key := Some "secret";
     url := Some {| protocol := "http"; ip_address := "localhost"; port := "8384" |} |}.

(** A desktop client in front of a daemon that answers every request alike. *)
Definition world_with (answer : Promise Response) : World :=
  {| settings := local_settings;
     isMobileApp := false;
     requestUrl := fun _ => answer;
     safeParseAsync := shape_safeParseAsync |}.

Definition folder_json (i p : string) (ds : list string) : Json :=
  JObject [("id", JString i); ("path", JString p);
           ("devices", JArray (map (fun d => JObject [("deviceID", JString d)]) ds))].

(** Two folders, the second shared with device [BBB] only. *)
Definition two_folders : Json :=
  JArray [folder_json "notes" "/home/me/notes" ["AAA"; "BBB"];
          folder_json "photos" "/home/me/photos" ["BBB"]].

Definition world_two_folders : World :=
  world_with (Resolved {| status := 200; text := "[...]"; json := two_folders |}).

(** A body in which two folders miss their required fields. *)
Definition world_schema_mismatch : World :=
  world_with (Resolved {| status := 200; text := "[{},{}]";
                          json := JArray [JObject []; JObject [("id", JString "notes")]] |}).

Definition world_forbidden : World :=
  world_with (Resolved {| status := 403; text := "Forbidden"; json := JNull |}).

Definition world_rejecting (reason : Value) : World :=
  world_with (Rejected reason).

(** No daemon is listening. *)
Definition world_offline : World :=
  world_rejecting (VError "Error" "net::ERR_CONNECTION_REFUSED").

Definition world_wrong_ping : World :=
  world_with (Resolved {| status := 200; text := "{...}";
                          json := JObject [("ping", JString "nope")] |}).

(** The same world with another validator, another configured address, or
    on another platform. *)
Definition with_validator
    (validator : forall T : Type, Schema T -> Json -> SafeParseResult T) (w : World) : World :=
  {| settings := settings w; isMobileApp := isMobileApp w;
     requestUrl := requestUrl w; safeParseAsync := validator |}.

Definition with_ip_address (address : string) (w : World) : World :=
  {| settings :=
       {| api_key := api_key (settings w);
          url := (fun u => {| protocol := protocol u; ip_address := address; port := port u |})
                   <$> url (settings w) |};
     isMobileApp := isMobileApp w;
     requestUrl := requestUrl w;
     safeParseAsync := safeParseAsync w |}.

Definition is_console_error (e : Event) : bool :=
  match e with ConsoleError _ => true | _ => false end.

(** A phone whose settings name the daemon [localhost]. *)
Definition world_phone : World :=
  {| settings := local_settings;
     isMobileApp := true;
     requestUrl := fun _ => Resolved {| status := 200; text := "[...]"; json := two_folders |};
     safeParseAsync := shape_safeParseAsync |}.

(** A client whose settings hold no [url]. *)
Definition world_no_url : World :=
  {| settings := {| api_key := None; url := None |};
     isMobileApp := false;
     requestUrl := fun _ => Rejected (VError "TypeError" "Failed to fetch");
     safeParseAsync := shape_safeParseAsync |}.

Definition world_pong : World :=
  world_with (Resolved {| status := 200; text := "{...}";
                          json := JObject [("ping", JString "pong")] |}).

End Rest.

(* ===================================================================== *)
(** ** The plugin's settings: [loadSettings] and [saveSettings] *)
(* ===================================================================== *)
Module Plugin.
Import Js.

(** [DEFAULT_SETTINGS], an object with two [null] members. *)
Definition DEFAULT_SETTINGS : gmap string Json :=
  <["api_key" := JNull]> (<["configuration" := JNull]> ∅).

(** [Object.assign(target, ...sources)]: the members of each source are
    copied in turn, a later source overriding; a [null] source is skipped. *)
Definition object_assign (target : gmap string Json)
    (sources : list (option (gmap string Json))) : gmap string Json :=
  foldl (fun acc source => match source with Some o => o ∪ acc | None => acc end)
        target sources.

(** [loadSettings]: what [this.settings] becomes, given what [loadData()]
    resolves to ([null] when nothing was ever saved). *)
Definition loadSettings (data : option (gmap string Json)) : gmap string Json :=
  object_assign ∅ [Some DEFAULT_SETTINGS; data].

(** [saveSettings]: what [loadData()] resolves to from then on. *)
Definition saveSettings (settings : gmap string Json) : option (gmap string Json) :=
  Some settings.

End Plugin.

(* ===================================================================== *)
(** ** The host: files and the asynchronous file store *)
(* ===================================================================== *)
Module Obsidian.

(** The fields of [TFile] and [FileStats] the views read.  Timestamps are
    integral milliseconds. *)
Record FileStats := { ctime : Z; mtime : Z; size : Z }.
Record TFile := { path : string; name : string; basename : string; stat : FileStats }.

(** Modelled from the spec: the file store, a blob store keyed by path whose
    [delete] and [rename] each report an outcome (section 6); the vault
    itself belongs to the host application. *)
Record FileData := { content : string; stored_stat : FileStats }.

Inductive FileOp :=
| OpDelete (file : TFile)
| OpRename (file : TFile) (newPath : string).

(** What an operation does to the store once the host carries it out, and
    whether it succeeded. *)
Definition apply_op (op : FileOp) (v : gmap string FileData) : bool * gmap string FileData :=
  match op with
  | OpDelete file =>
      match v !! path file with
      | Some _ => (true, delete (path file) v)
      | None => (false, v)
      end
  | OpRename file newPath =>
      match v !! path file, v !! newPath with
      | Some d, None => (true, <[newPath := d]> (delete (path file) v))
      | _, _ => (false, v)
      end
  end.

(** [vault.read(file)]: the content, or a rejection when the file is gone. *)
Definition read (v : gmap string FileData) (file : TFile) : option string :=
  content <$> v !! path file.

(** [vault.delete] and [fileManager.renameFile] return a promise at once; the
    host carries the operation out, and settles the promise, after the
    calling handler has returned.  The log records both moments. *)
Inductive LogEntry :=
| Issued (op : FileOp)
| Settled (op : FileOp) (ok : bool).

Record Host := {
  vault : gmap string FileData;
  in_flight : list FileOp;
  log : list LogEntry }.

Definition issue (op : FileOp) (h : Host) : Host :=
  {| vault := vault h;
     in_flight := in_flight h ++ [op];
     log := log h ++ [Issued op] |}.

(** The host settles one operation in flight, whichever it picks. *)
Inductive settles : Host -> Host -> Prop :=
| settle_one (h : Host) (before after : list FileOp) (op : FileOp) :
    in_flight h = before ++ op :: after ->
    settles h {| vault := snd (apply_op op (vault h));
                 in_flight := before ++ after;
                 log := log h ++ [Settled op (fst (apply_op op (vault h)))] |}.


Definition idle (v : gmap string FileData) : Host :=
  {| vault := v; in_flight := []; log := [] |}.


(** The paths an operation reads or writes. *)
Definition touches (op : FileOp) : list string :=
  match op with
  | OpDelete file => [path file]
  | OpRename file newPath => [path file; newPath]
  end.

(** The host settles the operation issued first. *)
Definition settle_next (h : Host) : Host :=
  match in_flight h with
  | [] => h
  | op :: rest =>
      {| vault := snd (apply_op op (vault h));
         in_flight := rest;
         log := log h ++ [Settled op (fst (apply_op op (vault h)))] |}
  end.

Fixpoint settle_times (n : nat) (h : Host) : Host :=
  match n with
  | O => h
  | S n' => settle_times n' (settle_next h)
  end.

(** A host that settles everything in flight, in the order of issue. *)
Definition settle_in_order (h : Host) : Host := settle_times (length (in_flight h)) h.

End Obsidian.

(* ===================================================================== *)
(** ** [DiffModal] of views/syncthing_diff.ts *)
(* ===================================================================== *)
Module Diff.
Import Obsidian.

(** [Failure] of [src/models/failures], of which the view reads [message]. *)
Record Failure := { message : string }.

(** What [syncthingController.getDiffFiles] resolves to (the controller is
    not part of the sources). *)
Record DiffFiles := {
  diff_originalFile : TFile;
  diff_conflictingFiles : list TFile + Failure }.

(** The [diff] and [diff2html] packages. *)
Record Libraries := {
  createTwoFilesPatch : string -> string -> string -> string -> string;
  html : string -> string }.

Record DiffModal := {
  d2hUI : option string;
  d2hColorBlind : bool;
  file : TFile;
  originalFile : TFile;
  conflictingFiles : list TFile + Failure;
  currentConflictFile : TFile }.

(** [new DiffModal(app, file, syncthingController)] *)
Definition constructor (file : TFile) : DiffModal :=
  {| d2hUI := None;
     d2hColorBlind := false;
     file := file;
     originalFile := file;
     conflictingFiles := inl [];
     currentConflictFile := file |}.

(** One row of the left column: its title, the two parts of its description
    (the date is printed from [mtime]) and the file its buttons act on. *)
Record ConflictRow := {
  row_name : string;
  row_mtime : Z;
  row_path : string;
  row_file : TFile }.

Inductive View :=
| FailedView (desc : string)
| ColumnsView (leftSide : list ConflictRow) (middle : string) (rightSide : TFile).

(** [(a, b) => a.stat.mtime - b.stat.mtime] *)
Definition compareFn (a b : TFile) : Z := mtime (stat a) - mtime (stat b).

Definition row_of (file : TFile) : ConflictRow :=
  {| row_name := basename file;
     row_mtime := mtime (stat file);
     row_path := path file;
     row_file := file |}.

Definition onOpen (getDiffFiles : TFile -> DiffFiles) (this : DiffModal) : DiffModal * View :=
  let fetched := getDiffFiles (file this) in
  match diff_conflictingFiles fetched with
  | inr failure =>
      ({| d2hUI := d2hUI this; d2hColorBlind := d2hColorBlind this; file := file this;
          originalFile := diff_originalFile fetched;
          conflictingFiles := inr failure;
          currentConflictFile := currentConflictFile this |},
       FailedView (message failure))
  | inl files =>
      let sorted := Js.sort compareFn files in
      ({| d2hUI := d2hUI this; d2hColorBlind := d2hColorBlind this; file := file this;
          originalFile := diff_originalFile fetched;
          conflictingFiles := inl sorted;
          currentConflictFile := currentConflictFile this |},
       ColumnsView (map row_of sorted)
                   (match d2hUI this with Some ui => ui | None => "" end)
                   (diff_originalFile fetched))
  end.

(** The rows of the left column, none when the view is the failure notice. *)
Definition leftSide_of (v : View) : list ConflictRow :=
  match v with
  | FailedView _ => []
  | ColumnsView rows _ _ => rows
  end.

Definition getDiffContent (lib : Libraries) (v : gmap string FileData)
    (file1 file2 : TFile) : option string :=
  text1 ← read v file1;
  text2 ← read v file2;
  Some (html lib (createTwoFilesPatch lib (basename file1) (basename file2) text1 text2)).

(** The "Resolve conflict" button of a row.  When a read is rejected the
    handler stops after the assignment of [currentConflictFile]; otherwise
    the modal is closed and opened again. *)
Definition resolveConflict_onClick (lib : Libraries) (getDiffFiles : TFile -> DiffFiles)
    (v : gmap string FileData) (row : ConflictRow) (this : DiffModal) : DiffModal :=
  let chosen :=
    {| d2hUI := d2hUI this; d2hColorBlind := d2hColorBlind this; file := file this;
       originalFile := originalFile this; conflictingFiles := conflictingFiles this;
       currentConflictFile := row_file row |} in
  match getDiffContent lib v (originalFile chosen) (currentConflictFile chosen) with
  | None => chosen
  | Some ui =>
      fst (onOpen getDiffFiles
             {| d2hUI := Some ui; d2hColorBlind := d2hColorBlind chosen; file := file chosen;
                originalFile := originalFile chosen;
                conflictingFiles := conflictingFiles chosen;
                currentConflictFile := currentConflictFile chosen |})
  end.

(** What a button handler does, statement by statement.  A timer only shows
    a notice; the one that names [currentConflictFile] reads a field the
    handler leaves as it is, so its text is fixed when the timer is set. *)
Inductive Effect :=
| Close
| ShowNotice (message : string) (duration : Z)
| SetTimeout (notice : string) (duration : Z) (delay : Z)
| VaultDelete (file : TFile)
| RenameFile (file : TFile) (newPath : string)
| NewDiffModal (file : TFile).

(** A click: the modal afterwards, what the handler did, and the value the
    callback returned. *)
Record Click := {
  modal_after : DiffModal;
  effects : list Effect;
  returned : Js.Value }.

Definition acceptLeft_onClick (this : DiffModal) : Click :=
  let filenamePath := path (originalFile this) in
  let this' :=
    {| d2hUI := d2hUI this; d2hColorBlind := d2hColorBlind this; file := file this;
       originalFile := currentConflictFile this;
       conflictingFiles := conflictingFiles this;
       currentConflictFile := currentConflictFile this |} in
  {| modal_after := this';
     effects :=
       [ Close;
         ShowNotice "Resolving conflict : Accepting left" 5000;
         SetTimeout ("Deleting " +:+ filenamePath +:+ "...") 5000 500;
         VaultDelete (originalFile this);
         SetTimeout ("Renaming " +:+ path (currentConflictFile this) +:+ " to "
                       +:+ filenamePath +:+ "...") 5000 1000;
         RenameFile (currentConflictFile this) filenamePath;
         SetTimeout "Conflict resolved : Accepted left" 5000 2000;
         NewDiffModal (originalFile this') ];
     returned := Js.VUndefined |}.

Definition acceptOriginal_onClick (this : DiffModal) : Click :=
  {| modal_after := this;
     effects :=
       [ Close;
         ShowNotice "Resolving conflict : Accepting original" 5000;
         SetTimeout ("Deleting " +:+ path (currentConflictFile this) +:+ "...") 5000 1000;
         VaultDelete (currentConflictFile this);
         NewDiffModal (originalFile this) ];
     returned := Js.VUndefined |}.

(** The handler's statements in front of the host: a file call is issued and
    left in flight, everything else leaves the store alone. *)
Definition perform (h : Host) (e : Effect) : Host :=
  match e with
  | VaultDelete file => issue (OpDelete file) h
  | RenameFile file newPath => issue (OpRename file newPath) h
  | _ => h
  end.

(** The host when the handler returns. *)
Definition after_click (c : Click) (h : Host) : Host := foldl perform h (effects c).

(** The file operations a handler calls for, in order. *)
Definition file_ops (effs : list Effect) : list FileOp :=
  omap (fun e => match e with
                 | VaultDelete file => Some (OpDelete file)
                 | RenameFile file newPath => Some (OpRename file newPath)
                 | _ => None
                 end) effs.


(** *** A vault with one conflict *)

Definition note : TFile :=
  {| path := "note.md"; name := "note.md"; basename := "note";
     stat := {| ctime := 1000; mtime := 5000; size := 12 |} |}.

Definition conflict_jan : TFile :=
  {| path := "note.sync-conflict-20240101-113000-ABCDEF.md";
     name := "note.sync-conflict-20240101-113000-ABCDEF.md";
     basename := "note.sync-conflict-20240101-113000-ABCDEF";
     stat := {| ctime := 2000; mtime := 3000; size := 10 |} |}.

Definition conflict_feb : TFile :=
  {| path := "note.sync-conflict-20240201-090000-GHIJKL.md";
     name := "note.sync-conflict-20240201-090000-GHIJKL.md";
     basename := "note.sync-conflict-20240201-090000-GHIJKL";
     stat := {| ctime := 2500; mtime := 4000; size := 11 |} |}.

Definition stored (f : TFile) (text : string) : FileData :=
  {| content := text; stored_stat := stat f |}.

Definition note_vault : gmap string FileData :=
  <[path note := stored note "original"]>
    (<[path conflict_jan := stored conflict_jan "january"]>
       (<[path conflict_feb := stored conflict_feb "february"]> ∅)).


(** A controller that reports [note] with both variants, newest first. *)
Definition note_controller (_ : TFile) : DiffFiles :=
  {| diff_originalFile := note; diff_conflictingFiles := inl [conflict_feb; conflict_jan] |}.

Definition plain_libraries : Libraries :=
  {| createTwoFilesPatch := fun oldName newName oldText newText =>
       "--- " +:+ oldName +:+ " +++ " +:+ newName;
     html := fun patch => "<div>" +:+ patch +:+ "</div>" |}.

(** The modal opened on [note], and then with the January variant chosen. *)
Definition opened : DiffModal := fst (onOpen note_controller (constructor note)).

Definition chosen_jan : DiffModal :=
  resolveConflict_onClick plain_libraries note_controller note_vault (row_of conflict_jan) opened.

(** The colorblind toggle: the flag is set, the modal closed and opened. *)
Definition colorBlind_onChange (getDiffFiles : TFile -> DiffFiles) (value : bool)
    (this : DiffModal) : DiffModal * View :=
  onOpen getDiffFiles
    {| d2hUI := d2hUI this; d2hColorBlind := value; file := file this;
       originalFile := originalFile this; conflictingFiles := conflictingFiles this;
       currentConflictFile := currentConflictFile this |}.

(** "Try again" of the failure notice: the modal is closed and opened. *)
Definition tryAgain_onClick (getDiffFiles : TFile -> DiffFiles) (this : DiffModal)
    : DiffModal * View :=
  onOpen getDiffFiles this.

(** A controller that cannot tell the files. *)
Definition failing_controller (f : TFile) : DiffFiles :=
  {| diff_originalFile := f;
     diff_conflictingFiles := inr {| message := "Could not list the files" |} |}.

End Diff.

(* ===================================================================== *)
(** ** [ConflictFilesModal] of main.ts *)
(* ===================================================================== *)
Module ConflictFiles.
Import Obsidian.

(** A row of the files list: its text, and the call its click listener makes,
    [showFileDiff(originalFile, file, diffView, fileView)].  [allFiles[0]] of
    an empty listing is [undefined]. *)
Record FileRow := {
  row_text : string;
  shown_original : option TFile;
  shown_conflicting : TFile }.

Definition onOpen (allFiles : list TFile) : list FileRow :=
  let originalFile := allFiles !! 0%nat in
  let files := Js.slice 1 (Z.of_nat (length allFiles)) allFiles in
  map (fun file =>
         {| row_text := name file;
            shown_original := originalFile;
            shown_conflicting := file |})
      files.

(** A name the sync engine has marked as a conflicting variant. *)
Fixpoint contains (needle : string) (s : string) : bool :=
  String.prefix needle s ||
  match s with
  | EmptyString => false
  | String _ rest => contains needle rest
  end.

Definition has_conflict_marker (f : TFile) : bool := contains ".sync-conflict-" (name f).

(** An object is truthy. *)
Definition truthy (file : TFile) : bool := true.

(** An entry of the list [showConflictingFiles] builds: the link's text and
    [href], and the path its click opens. *)
Record FileLink := { innerText : string; href : string; opens : string }.

Definition showConflictingFiles (files : list TFile) : list FileLink :=
  let conflictingFiles := List.filter (fun file => truthy file) files in
  map (fun file =>
         {| innerText := basename file;
            href := "#" +:+ path file;
            opens := path file |})
      conflictingFiles.

(** The two columns [showFileDiff] writes. *)
Record Columns := { diffView : string; fileView : string }.

(** [showFileDiff]: the columns afterwards, or [None] when a read is
    rejected (reading [undefined] is), the columns then staying as they
    were. *)
Definition showFileDiff
    (createTwoFilesPatch : string -> string -> string -> string -> string)
    (html : string -> string) (v : gmap string FileData)
    (originalFile : option TFile) (conflictingFile : TFile) : option Columns :=
  original ← originalFile;
  originalContent ← read v original;
  conflictingContent ← read v conflictingFile;
  let diff := createTwoFilesPatch (basename original) (basename conflictingFile)
                originalContent conflictingContent in
  Some {| diffView := html diff; fileView := originalContent |}.

End ConflictFiles.

(* ===================================================================== *)
(** ** The diff engine *)
(* ===================================================================== *)
Module DiffEngine.

(** Modelled from the spec: the Diff Engine of section 4.3,
    [diff(textA, textB) -> DiffResult], a line-based comparison whose result
    is an ordered sequence of unchanged / added / removed line records.  The
    views obtain it from [createTwoFilesPatch] of the [diff] package, whose
    code is not part of the sources; the comparison below is the textbook
    longest-common-subsequence line diff. *)
Inductive ChangeKind := Unchanged | Added | Removed.

Record Change := { kind : ChangeKind; line : string }.

Record DiffResult := {
  sourceA : string;
  sourceB : string;
  records : list Change }.

Definition line_feed : ascii := ascii_of_nat 10.

(** The lines of a text, as [text.split("\n")] gives them. *)
Fixpoint split_lines (text : string) : list string :=
  match text with
  | EmptyString => [EmptyString]
  | String c rest =>
      if Ascii.eqb c line_feed then EmptyString :: split_lines rest
      else match split_lines rest with
           | l :: ls => String c l :: ls
           | [] => [String c EmptyString]
           end
  end.

(** Length of a longest common subsequence of two line lists. *)
Fixpoint lcs_length (xs ys : list string) : nat :=
  match xs with
  | [] => 0%nat
  | x :: xs' =>
      (fix inner (ys : list string) : nat :=
         match ys with
         | [] => 0%nat
         | y :: ys' =>
             if String.eqb x y then S (lcs_length xs' ys')
             else Nat.max (lcs_length xs' ys) (inner ys')
         end) ys
  end.

Fixpoint diff_lines (xs ys : list string) : list Change :=
  match xs with
  | [] => map (Build_Change Added) ys
  | x :: xs' =>
      (fix inner (ys : list string) : list Change :=
         match ys with
         | [] => map (Build_Change Removed) (x :: xs')
         | y :: ys' =>
             if String.eqb x y then Build_Change Unchanged x :: diff_lines xs' ys'
             else if (lcs_length (x :: xs') ys' <=? lcs_length xs' (y :: ys'))%nat
                  then Build_Change Removed x :: diff_lines xs' (y :: ys')
                  else Build_Change Added y :: inner ys'
         end) ys
  end.

(** Modelled from the spec: [diff(textA, textB)] of section 4.3, the
    comparison of the two texts line by line (the [diff] package that
    computes it for the views is not part of the sources). *)
Definition diff (textA textB : string) : list Change :=
  diff_lines (split_lines textA) (split_lines textB).

(** The comparison of two named sources. *)
Definition diff_sources (nameA nameB textA textB : string) : DiffResult :=
  {| sourceA := nameA; sourceB := nameB; records := diff textA textB |}.

Definition has_kind (k : ChangeKind) (c : Change) : bool :=
  match k, kind c with
  | Unchanged, Unchanged | Added, Added | Removed, Removed => true
  | _, _ => false
  end.

(** How many records of a kind a comparison holds. *)
Definition count_kind (k : ChangeKind) (cs : list Change) : nat :=
  length (List.filter (has_kind k) cs).

(** The lines of either side, read back from the records. *)
Definition side_of (dropped : ChangeKind) (cs : list Change) : list string :=
  map line (List.filter (fun c => negb (has_kind dropped c)) cs).

End DiffEngine.

(* ===================================================================== *)
(** ** Properties of the remote data source *)
(* ===================================================================== *)
Module RestSpec.
Import Js Rest.

(** [requestEndpoint], case by case on how the request settles. *)
Lemma requestEndpoint_cases (endpoint : string) (w : World) :
  requestEndpoint endpoint w =
  match requestUrl w (request_of w endpoint) with
  | Resolved response =>
      if status response >=? 400
      then (preamble w endpoint
              ++ [ConsoleLog "requestEndpoint: response ";
                  ConsoleError "requestEndpoint: error: "],
            Thrown (RestFailure (RestFailure (VString (text response)))))
      else (preamble w endpoint ++ [ConsoleLog "requestEndpoint: response "],
            Returned response)
  | Rejected reason =>
      (preamble w endpoint ++ [ConsoleError "requestEndpoint: error: "],
       Thrown (RestFailure reason))
  end.
Proof.
  unfold requestEndpoint, bind, promise_catch, promise_then, emit, ask, throw, ret,
    preamble, request_of; simpl.
  destruct (requestUrl w _) as [response | reason]; simpl; [|reflexivity].
  destruct (status response >=? 400); reflexivity.
Qed.

(** Every call of [requestEndpoint] sends exactly one request. *)
Lemma requestEndpoint_one_request (endpoint : string) (w : World) :
  requests (events (requestEndpoint endpoint w)) = [HttpRequest (request_of w endpoint)].
Proof.
  rewrite requestEndpoint_cases.
  destruct (requestUrl w _) as [response | reason]; [|reflexivity].
  destruct (status response >=? 400); reflexivity.
Qed.

(** A resource method, unfolded once: the request, then the validator. *)
Lemma call_unfold T (m : ResourceMethod T) (w : World) :
  call m w =
  match requestEndpoint (endpoint_of m) w with
  | (ev, Returned response) =>
      match safeParseAsync w T (schema_of m) (json response) with
      | ParseFailure issues =>
          (ev ++ [ConsoleError
                    (match m with
                     | GetAllFolders => "getAllFolders ERROR: "
                     | GetDevices => "getDevices ERROR: "
                     | GetConfiguration => "getConfiguration ERROR: "
                     | GetSystemStatus => "getSystemStatus ERROR: "
                     end)],
           Thrown (RestFailure (VString (issues_message issues))))
      | ParseSuccess output => (ev ++ [], Returned output)
      end
  | (ev, Thrown e) => (ev, Thrown e)
  end.
Proof.
  destruct m; simpl;
    unfold getAllFolders, getDevices, getConfiguration, getSystemStatus, bind, ask;
    destruct (requestEndpoint _ w) as [ev [response | e]]; try reflexivity;
    simpl; destruct (safeParseAsync w _ _ _); reflexivity.
Qed.

(** C1, as the code has it: when the body of a resource method's response
    does not pass the method's schema, the method raises a [RestFailure]
    whose message is the validator's issue messages joined by newlines; it
    returns no object, and it has sent the one request of [requestEndpoint]. *)
Theorem schema_mismatch_raises_RestFailure
    T (m : ResourceMethod T) (w : World) (ev : list Event) (response : Response)
    (issues : list Issue) :
  requestEndpoint (endpoint_of m) w = (ev, Returned response) ->
  safeParseAsync w T (schema_of m) (json response) = ParseFailure issues ->
  outcome (call m w) = Thrown (RestFailure (VString (join newline (map message issues))))
  /\ (forall output, outcome (call m w) <> Returned output)
  /\ requests (events (call m w)) = [HttpRequest (request_of w (endpoint_of m))].
Proof.
  intros Hreq Hparse.
  pose proof (requestEndpoint_one_request (endpoint_of m) w) as Hone.
  rewrite call_unfold. rewrite Hreq in *. rewrite Hparse. simpl in *.
  repeat split.
  - discriminate.
  - unfold requests in *. rewrite List.filter_app, Hone. reflexivity.
Qed.

Lemma schema_mismatch_raises_RestFailure_witness :
  outcome (getAllFolders world_schema_mismatch)
  = Thrown (RestFailure (VString ("Invalid type" +:+ newline +:+ "Invalid type"))).
Proof.
  refine (proj1 (schema_mismatch_raises_RestFailure _ GetAllFolders world_schema_mismatch
                   _ _ [invalid_type; invalid_type] _ _)); reflexivity.
Defined.

(** C1, the part that fails: the value raised for a schema mismatch carries
    nothing that marks it as a validation failure.  Its class is
    [RestFailure], the class raised when no daemon answers; and
    [getAllFolders] raises the very same value when the request itself is
    rejected with that text, so no reading of a kind off the raised value
    makes the first [validation] and the second [transport]. *)
Lemma schema_mismatch_failure_has_no_kind :
  (exists e e',
     outcome (getAllFolders world_schema_mismatch) = Thrown e
     /\ outcome (getAllFolders world_offline) = Thrown e'
     /\ class_of e = Some "RestFailure"
     /\ class_of e' = Some "RestFailure")
  /\ ~ exists kind_of : Value -> FailureKind,
         (forall e, outcome (getAllFolders world_schema_mismatch) = Thrown e ->
                    kind_of e = validation)
         /\ (forall e, outcome (getAllFolders
                                  (world_rejecting
                                     (VString ("Invalid type" +:+ newline +:+ "Invalid type"))))
                       = Thrown e ->
                       kind_of e = transport).
Proof.
  split.
  - eexists _, _. repeat split.
  - intros (kind_of & Hvalidation & Htransport).
    set (e := RestFailure (VString ("Invalid type" +:+ newline +:+ "Invalid type"))).
    assert (kind_of e = validation) as Hv by (apply Hvalidation; reflexivity).
    assert (kind_of e = transport) as Ht by (apply Htransport; reflexivity).
    congruence.
Qed.

(** A request that fails leaves a resource method nothing to parse: the
    method stops with the failure of [requestEndpoint] and its trace. *)
Lemma request_failure_propagates T (m : ResourceMethod T) (w : World) ev e :
  requestEndpoint (endpoint_of m) w = (ev, Thrown e) -> call m w = (ev, Thrown e).
Proof. intros H. rewrite call_unfold, H. reflexivity. Qed.

(** A rejected request is raised as a [RestFailure] around the reason. *)
Lemma rejected_request_raises (endpoint : string) (w : World) (reason : Value) :
  requestUrl w (request_of w endpoint) = Rejected reason ->
  outcome (requestEndpoint endpoint w) = Thrown (RestFailure reason).
Proof. intros H. rewrite requestEndpoint_cases, H. reflexivity. Qed.

(** A response with status 400 or more: the failure thrown in [then] is
    caught by the [catch] that follows it and wrapped once more. *)
Lemma status_failure_is_wrapped (endpoint : string) (w : World) (response : Response) :
  requestUrl w (request_of w endpoint) = Resolved response ->
  status response >= 400 ->
  outcome (requestEndpoint endpoint w)
  = Thrown (RestFailure (RestFailure (VString (text response)))).
Proof.
  intros H Hstatus. rewrite requestEndpoint_cases, H.
  destruct (Z.geb_spec (status response) 400); [reflexivity | lia].
Qed.

(** C2, where the code departs from it: on a 403 response whose body is
    [Forbidden], every method raises a [RestFailure] whose message is not
    that text but a second [RestFailure] holding it. *)
Theorem forbidden_response_raises_nested_failure :
  outcome (ping world_forbidden)
    = Thrown (RestFailure (RestFailure (VString "Forbidden")))
  /\ outcome (getAllFolders world_forbidden)
    = Thrown (RestFailure (RestFailure (VString "Forbidden")))
  /\ outcome (getDevices world_forbidden)
    = Thrown (RestFailure (RestFailure (VString "Forbidden")))
  /\ outcome (getConfiguration world_forbidden)
    = Thrown (RestFailure (RestFailure (VString "Forbidden")))
  /\ outcome (getSystemStatus world_forbidden)
    = Thrown (RestFailure (RestFailure (VString "Forbidden")))
  /\ (forall device, outcome (getFoldersForDevice device world_forbidden)
    = Thrown (RestFailure (RestFailure (VString "Forbidden")))).
Proof. repeat split. Qed.

(** [ping], case by case on the response. *)
Lemma ping_unfold (w : World) :
  ping w =
  match requestEndpoint "/rest/system/ping" w with
  | (ev, Returned response) =>
      let '(ev', r) := get_property (json response) "ping" w in
      (ev ++ ConsoleLog "REST - ping: " :: ev', r)
  | (ev, Thrown e) => (ev, Thrown e)
  end.
Proof.
  unfold ping, bind, emit.
  destruct (requestEndpoint _ w) as [ev [response | e]]; [|reflexivity].
  destruct (get_property _ _ w); reflexivity.
Qed.

(** [ping] never consults the validator: whatever validator the world
    holds, the call is the same. *)
Lemma ping_ignores_validator (w : World) validator :
  ping {| settings := settings w; isMobileApp := isMobileApp w;
          requestUrl := requestUrl w; safeParseAsync := validator |}
  = ping w.
Proof.
  rewrite !ping_unfold, !requestEndpoint_cases. unfold preamble, request_of. simpl.
  destruct (requestUrl w _) as [response | reason]; [|reflexivity].
  destruct (status response >=? 400); [reflexivity|].
  destruct (json response); reflexivity.
Qed.

(** C5, where the code departs from it: a 200 response whose body is
    [{"ping": "nope"}] makes [ping] return ["nope"]; a body without the
    member makes it return [undefined].  No failure is raised. *)
Theorem ping_returns_the_member_unvalidated :
  outcome (ping world_wrong_ping) = Returned (VString "nope")
  /\ outcome (ping (world_with (Resolved {| status := 200; text := "{}"; json := JObject [] |})))
     = Returned VUndefined.
Proof. split; reflexivity. Qed.

(** The test of [getFoldersForDevice], as a proposition. *)
Lemma some_device_spec (device : Device) (folder : Folder) :
  existsb (fun deviceInFolder =>
             String.eqb (deviceInFolder_deviceID deviceInFolder) (deviceID device))
          (devices folder) = true
  <-> Exists (fun d => deviceInFolder_deviceID d = deviceID device) (devices folder).
Proof.
  rewrite existsb_exists, Exists_exists. unfold elem_of.
  split; intros (d & Hin & Hd); exists d; split; try assumption.
  - apply list_elem_of_In; assumption.
  - apply String.eqb_eq; assumption.
  - apply list_elem_of_In; assumption.
  - apply String.eqb_eq; assumption.
Qed.

Lemma filter_some_device (device : Device) (folders : list Folder) :
  List.filter
    (fun folder =>
       existsb (fun deviceInFolder =>
                  String.eqb (deviceInFolder_deviceID deviceInFolder) (deviceID device))
               (devices folder))
    folders
  = filter (fun folder =>
              Exists (fun d => deviceInFolder_deviceID d = deviceID device) (devices folder))
           folders.
Proof.
  induction folders as [|folder folders IH]; [reflexivity|].
  rewrite filter_cons. simpl. rewrite IH.
  destruct (existsb _ (devices folder)) eqn:E.
  - apply some_device_spec in E. rewrite decide_True by assumption. reflexivity.
  - rewrite decide_False; [reflexivity|].
    intros H. apply some_device_spec in H. congruence.
Qed.

(** C6: [getFoldersForDevice] leaves the trace of [getAllFolders] and no
    other (so it sends no request of its own); when [getAllFolders] returns
    folders it returns, in their order, exactly those whose [devices] hold an
    entry with the device's [deviceID]; when [getAllFolders] raises, it
    raises the same. *)
Theorem getFoldersForDevice_filters_getAllFolders (device : Device) (w : World) :
  events (getFoldersForDevice device w) = events (getAllFolders w)
  /\ (forall folders,
        outcome (getAllFolders w) = Returned folders ->
        outcome (getFoldersForDevice device w)
        = Returned (filter (fun folder =>
                              Exists (fun d => deviceInFolder_deviceID d = deviceID device)
                                     (devices folder))
                           folders))
  /\ (forall e,
        outcome (getAllFolders w) = Thrown e ->
        outcome (getFoldersForDevice device w) = Thrown e).
Proof.
  unfold getFoldersForDevice, bind, ret, events, outcome.
  destruct (getAllFolders w) as [ev [folders | e]]; simpl.
  - rewrite app_nil_r. repeat split; [|discriminate].
    intros ? [= <-]. rewrite filter_some_device. reflexivity.
  - repeat split; [discriminate|]. intros ? [= <-]. reflexivity.
Qed.

Lemma getFoldersForDevice_filters_getAllFolders_witness :
  outcome (getFoldersForDevice {| deviceID := "AAA"; name := "laptop" |} world_two_folders)
  = Returned [ {| id := "notes"; path := "/home/me/notes";
                  devices := [ {| deviceInFolder_deviceID := "AAA" |};
                               {| deviceInFolder_deviceID := "BBB" |} ] |} ].
Proof.
  pose proof (proj1 (proj2 (getFoldersForDevice_filters_getAllFolders
                              {| deviceID := "AAA"; name := "laptop" |} world_two_folders))
                _ eq_refl) as H.
  vm_compute in H. vm_compute. exact H.
Defined.

End RestSpec.

(* ===================================================================== *)
(** ** [Array.prototype.sort] with a comparator that subtracts keys *)
(* ===================================================================== *)
Module JsSpec.
Import Js.

Section SortByKey.
Context {A : Type} (key : A -> Z).

(** [(a, b) => key(a) - key(b)] *)
Local Abbreviation by_key := (fun a b : A => key a - key b).
Local Abbreviation key_le := (fun x y : A => key x <= key y).

Lemma sort_insert_perm (compareFn : A -> A -> Z) (a : A) (l : list A) :
  sort_insert compareFn a l ≡ₚ a :: l.
Proof.
  induction l as [|b l IH]; simpl; [reflexivity|].
  destruct (compareFn a b >? 0); [|reflexivity].
  rewrite IH. apply Permutation_swap.
Qed.

Lemma sort_perm (compareFn : A -> A -> Z) (l : list A) : sort compareFn l ≡ₚ l.
Proof.
  induction l as [|a l IH]; simpl; [reflexivity|].
  rewrite sort_insert_perm, IH. reflexivity.
Qed.

Lemma sort_insert_sorted (a : A) (l : list A) :
  StronglySorted key_le l -> StronglySorted key_le (sort_insert by_key a l).
Proof.
  induction 1 as [|b l Hl IH Hb]; simpl.
  - repeat constructor.
  - destruct (Z.gtb_spec (key a - key b) 0) as [Hgt | Hle].
    + constructor; [exact IH|].
      rewrite sort_insert_perm. constructor; [lia | exact Hb].
    + constructor; [constructor; assumption|].
      constructor; [lia|].
      eapply Forall_impl; [exact Hb|]. simpl. intros c Hc. lia.
Qed.

Lemma sort_sorted (l : list A) : StronglySorted key_le (sort by_key l).
Proof.
  induction l as [|a l IH]; simpl; [constructor|].
  apply sort_insert_sorted, IH.
Qed.

(** Stability: among the elements of one key, the order of the input stays. *)
Lemma sort_insert_filter (t : Z) (a : A) (l : list A) :
  filter (fun x => key x = t) (sort_insert by_key a l)
  = filter (fun x => key x = t) (a :: l).
Proof.
  induction l as [|b l IH]; simpl; [reflexivity|].
  destruct (Z.gtb_spec (key a - key b) 0) as [Hgt | Hle]; [|reflexivity].
  rewrite filter_cons, IH, !filter_cons.
  destruct (decide (key b = t)), (decide (key a = t)); try reflexivity. lia.
Qed.

Lemma sort_stable (t : Z) (l : list A) :
  filter (fun x => key x = t) (sort by_key l) = filter (fun x => key x = t) l.
Proof.
  induction l as [|a l IH]; simpl; [reflexivity|].
  rewrite sort_insert_filter, !filter_cons, IH. reflexivity.
Qed.

(** With keys that tell the elements apart, the result does not depend on
    the order the elements come in. *)
Lemma sort_order_independent (l l' : list A) :
  (forall x y, x ∈ l -> y ∈ l -> key x = key y -> x = y) ->
  l' ≡ₚ l ->
  sort by_key l' = sort by_key l.
Proof.
  intros Hkey Hperm.
  apply (StronglySorted_unique_strong key_le).
  - intros x y Hx Hy Hxy Hyx. apply Hkey.
    + rewrite sort_perm, Hperm in Hx. exact Hx.
    + rewrite sort_perm in Hy. exact Hy.
    + lia.
  - apply sort_sorted.
  - apply sort_sorted.
  - rewrite !sort_perm. exact Hperm.
Qed.

End SortByKey.

End JsSpec.

(* ===================================================================== *)
(** ** Properties of the diff modal *)
(* ===================================================================== *)
Module DiffSpec.
Import Obsidian Diff.



(** What reaches the host when "Accept left" has run. *)
Lemma after_acceptLeft (this : DiffModal) (v : gmap string FileData) :
  after_click (acceptLeft_onClick this) (idle v)
  = {| vault := v;
       in_flight := [OpDelete (originalFile this);
                     OpRename (currentConflictFile this) (path (originalFile this))];
       log := [Issued (OpDelete (originalFile this));
               Issued (OpRename (currentConflictFile this) (path (originalFile this)))] |}.
Proof. reflexivity. Qed.














(** C8: when the controller reports conflicting files, the rows of the left
    column show them by last-modified time ascending, oldest first: the rows
    are a rearrangement of the reported files, sorted by [mtime], files of
    equal [mtime] in the order reported; the modal keeps the same list.  When
    the times tell the files apart, a controller that reports the same files
    in another order gets the same rows. *)
Theorem conflicting_files_shown_oldest_first
    (getDiffFiles : TFile -> DiffFiles) (this : DiffModal) (files : list TFile) :
  diff_conflictingFiles (getDiffFiles (file this)) = inl files ->
  StronglySorted (fun a b => mtime (stat a) <= mtime (stat b))
    (map row_file (leftSide_of (snd (onOpen getDiffFiles this))))
  /\ map row_file (leftSide_of (snd (onOpen getDiffFiles this))) ≡ₚ files
  /\ (forall t,
        filter (fun f => mtime (stat f) = t)
               (map row_file (leftSide_of (snd (onOpen getDiffFiles this))))
        = filter (fun f => mtime (stat f) = t) files)
  /\ conflictingFiles (fst (onOpen getDiffFiles this))
     = inl (map row_file (leftSide_of (snd (onOpen getDiffFiles this))))
  /\ (forall getDiffFiles' files',
        diff_conflictingFiles (getDiffFiles' (file this)) = inl files' ->
        files' ≡ₚ files ->
        (forall a b, a ∈ files -> b ∈ files ->
                     mtime (stat a) = mtime (stat b) -> a = b) ->
        leftSide_of (snd (onOpen getDiffFiles' this))
        = leftSide_of (snd (onOpen getDiffFiles this))).
Proof.
  intros Hfiles. unfold onOpen. rewrite Hfiles. simpl.
  rewrite map_map. simpl. rewrite map_id.
  split; [|split; [|split; [|split]]].
  - apply (JsSpec.sort_sorted (fun f => mtime (stat f))).
  - apply JsSpec.sort_perm.
  - intros t. apply (JsSpec.sort_stable (fun f => mtime (stat f))).
  - reflexivity.
  - intros getDiffFiles' files' Hfiles' Hperm Hdistinct. rewrite Hfiles'. simpl.
    f_equal. apply (JsSpec.sort_order_independent (fun f => mtime (stat f)));
      assumption.
Qed.

Lemma conflicting_files_shown_oldest_first_witness :
  map row_file (leftSide_of (snd (onOpen note_controller (constructor note))))
  ≡ₚ [conflict_feb; conflict_jan]
  /\ map row_file (leftSide_of (snd (onOpen note_controller (constructor note))))
     = [conflict_jan; conflict_feb].
Proof.
  split; [|reflexivity].
  exact (proj1 (proj2 (conflicting_files_shown_oldest_first
                         note_controller (constructor note) _ eq_refl))).
Defined.

(** Until a row's "Resolve conflict" has been clicked, [currentConflictFile]
    is the file the modal was built on: on a modal built on the original,
    "Accept original" then calls for the delete of that very file. *)
Example acceptOriginal_before_any_choice :
  currentConflictFile opened = originalFile opened
  /\ file_ops (effects (acceptOriginal_onClick opened)) = [OpDelete note].
Proof. split; reflexivity. Qed.

End DiffSpec.

(* ===================================================================== *)
(** ** Properties of the conflict-files modal *)
(* ===================================================================== *)
Module ConflictFilesSpec.
Import Obsidian ConflictFiles.

(** [allFiles.slice(1, allFiles.length)] is the listing without its head. *)
Lemma slice_tail {A} (first : A) (rest : list A) :
  Js.slice 1 (Z.of_nat (length (first :: rest))) (first :: rest) = rest.
Proof.
  unfold Js.slice, Js.clamp_index.
  set (len := Z.of_nat (length (first :: rest))).
  assert (len = Z.of_nat (length rest) + 1) as Hlen by (subst len; simpl length; lia).
  replace (Z.to_nat (if 1 <? 0 then Z.max (len + 1) 0 else Z.min 1 len)) with 1%nat
    by (change (1 <? 0) with false; simpl; lia).
  replace (Z.to_nat (if len <? 0 then Z.max (len + len) 0 else Z.min len len))
    with (S (length rest))
    by (destruct (Z.ltb_spec len 0); lia).
  simpl. rewrite Nat.sub_0_r. apply firstn_all.
Qed.

(** C10: for a listing that is not empty, the modal takes the first file as
    the original and shows one row for each file after it, in order, whatever
    the files are called; each row's click compares the first file with the
    row's file.  A listing of one file shows no row. *)
Theorem first_file_is_the_original (first : TFile) (rest : list TFile) :
  onOpen (first :: rest)
  = map (fun file => {| row_text := name file;
                        shown_original := Some first;
                        shown_conflicting := file |}) rest
  /\ map shown_conflicting (onOpen (first :: rest)) = rest
  /\ onOpen [first] = [].
Proof.
  assert (forall l, onOpen (first :: l)
                    = map (fun file => {| row_text := name file;
                                          shown_original := Some first;
                                          shown_conflicting := file |}) l) as H.
  { intros l. unfold onOpen. rewrite slice_tail. reflexivity. }
  split; [apply H | split; [|apply (H [])]].
  rewrite H, map_map. simpl. apply map_id.
Qed.

(** The conflict marker plays no part: a listing headed by a marked file
    makes that file the original and the unmarked one its variant. *)
Example marked_file_taken_as_original :
  has_conflict_marker Diff.conflict_jan = true
  /\ has_conflict_marker Diff.note = false
  /\ onOpen [Diff.conflict_jan; Diff.note]
     = [ {| row_text := "note.md";
            shown_original := Some Diff.conflict_jan;
            shown_conflicting := Diff.note |} ].
Proof. repeat split. Qed.

End ConflictFilesSpec.

(* ===================================================================== *)
(** ** Properties of the diff engine *)
(* ===================================================================== *)
Module DiffEngineSpec.
Import DiffEngine.

Lemma diff_lines_cons_cons (x : string) (xs : list string) (y : string) (ys : list string) :
  diff_lines (x :: xs) (y :: ys)
  = if String.eqb x y then Build_Change Unchanged x :: diff_lines xs ys
    else if (lcs_length (x :: xs) ys <=? lcs_length xs (y :: ys))%nat
         then Build_Change Removed x :: diff_lines xs (y :: ys)
         else Build_Change Added y :: diff_lines (x :: xs) ys.
Proof. reflexivity. Qed.

Lemma diff_lines_nil_r (xs : list string) :
  diff_lines xs [] = map (Build_Change Removed) xs.
Proof. destruct xs; reflexivity. Qed.

Lemma side_of_map_same (k : ChangeKind) (l : list string) :
  side_of k (map (Build_Change k) l) = [].
Proof. induction l as [|x l IH]; [reflexivity|]. destruct k; exact IH. Qed.

Lemma side_of_map_other (k k' : ChangeKind) (l : list string) :
  k <> k' -> side_of k (map (Build_Change k') l) = l.
Proof.
  intros Hk. unfold side_of.
  destruct k, k'; try congruence; clear Hk;
    (induction l as [|x l IH]; [reflexivity | simpl; f_equal; exact IH]).
Qed.

(** Without the added records, a comparison reads as the first text. *)
Lemma diff_lines_old_side (xs ys : list string) :
  side_of Added (diff_lines xs ys) = xs.
Proof.
  revert ys. induction xs as [|x xs IHxs]; intros ys.
  - apply side_of_map_same.
  - induction ys as [|y ys IHys].
    + rewrite diff_lines_nil_r. apply side_of_map_other. discriminate.
    + rewrite diff_lines_cons_cons.
      destruct (String.eqb x y); [|destruct (_ <=? _)%nat].
      * unfold side_of in *. simpl. f_equal. apply IHxs.
      * unfold side_of in *. simpl. f_equal. apply IHxs.
      * unfold side_of in *. simpl. apply IHys.
Qed.

(** Without the removed records, it reads as the second text. *)
Lemma diff_lines_new_side (xs ys : list string) :
  side_of Removed (diff_lines xs ys) = ys.
Proof.
  revert ys. induction xs as [|x xs IHxs]; intros ys.
  - apply side_of_map_other. discriminate.
  - induction ys as [|y ys IHys].
    + rewrite diff_lines_nil_r. apply side_of_map_same.
    + rewrite diff_lines_cons_cons.
      destruct (String.eqb_spec x y) as [-> | Hne]; [|destruct (_ <=? _)%nat].
      * unfold side_of in *. simpl. f_equal. apply IHxs.
      * unfold side_of in *. simpl. apply IHxs.
      * unfold side_of in *. simpl. f_equal. apply IHys.
Qed.

Lemma diff_lines_same (xs : list string) :
  diff_lines xs xs = map (Build_Change Unchanged) xs.
Proof.
  induction xs as [|x xs IH]; [reflexivity|].
  rewrite diff_lines_cons_cons, String.eqb_refl, IH. reflexivity.
Qed.

Lemma count_kind_unchanged (k : ChangeKind) (xs : list string) :
  k <> Unchanged -> count_kind k (map (Build_Change Unchanged) xs) = 0%nat.
Proof.
  intros Hk. induction xs as [|x xs IH]; [reflexivity|].
  unfold count_kind in *. simpl. destruct k; try congruence; exact IH.
Qed.

(** C9: a text compared with itself yields no added and no removed record,
    every line being reported unchanged.  [diff] is a function on all pairs
    of strings, the empty one included, and what it returns always reads
    back as its two arguments. *)
Theorem diff_of_a_text_with_itself (a : string) :
  count_kind Added (records (diff_sources a a a a)) = 0%nat
  /\ count_kind Removed (records (diff_sources a a a a)) = 0%nat
  /\ diff a a = map (Build_Change Unchanged) (split_lines a)
  /\ diff "" "" = [Build_Change Unchanged ""]
  /\ (forall b, side_of Added (diff a b) = split_lines a
                /\ side_of Removed (diff a b) = split_lines b).
Proof.
  unfold diff_sources, diff. simpl records. rewrite diff_lines_same.
  repeat split.
  - apply count_kind_unchanged. discriminate.
  - apply count_kind_unchanged. discriminate.
  - apply diff_lines_old_side.
  - apply diff_lines_new_side.
Qed.

End DiffEngineSpec.

(* ===================================================================== *)
(** ** Further properties of the remote data source *)
(* ===================================================================== *)
Module RestExtra.
Import Js Rest RestSpec.

Lemma call_requests T (m : ResourceMethod T) (w : World) :
  requests (events (call m w)) = [HttpRequest (request_of w (endpoint_of m))].
Proof.
  pose proof (requestEndpoint_one_request (endpoint_of m) w) as Hone.
  rewrite call_unfold.
  destruct (requestEndpoint (endpoint_of m) w) as [ev [response | e]]; simpl in *;
    [|exact Hone].
  destruct (safeParseAsync w T (schema_of m) (json response)); simpl;
    unfold requests in *; rewrite List.filter_app, Hone; reflexivity.
Qed.

(** X1: whatever the daemon answers and whatever the validator says, every
    method sends exactly one request, a GET to its own endpoint that carries
    the configured API key as [X-API-Key]; nothing is sent twice. *)
Theorem every_method_sends_one_request (w : World) :
  (forall T (m : ResourceMethod T),
     requests (events (call m w)) = [HttpRequest (request_of w (endpoint_of m))])
  /\ requests (events (ping w)) = [HttpRequest (request_of w "/rest/system/ping")]
  /\ (forall device,
        requests (events (getFoldersForDevice device w))
        = [HttpRequest (request_of w "/rest/config/folders")])
  /\ (forall endpoint,
        method (request_of w endpoint) = "GET"
        /\ headers (request_of w endpoint) !! 0%nat
           = Some ("X-API-Key", api_key (settings w))).
Proof.
  split; [|split; [|split]].
  - intros T m. apply call_requests.
  - pose proof (requestEndpoint_one_request "/rest/system/ping" w) as Hone.
    rewrite ping_unfold.
    destruct (requestEndpoint "/rest/system/ping" w) as [ev [response | e]];
      simpl in *; [|exact Hone].
    destruct (json response); simpl;
      unfold requests in *; rewrite List.filter_app, Hone; reflexivity.
  - intros device.
    pose proof (call_requests _ GetAllFolders w) as Hone. simpl in Hone.
    unfold getFoldersForDevice, bind, ret.
    destruct (getAllFolders w) as [ev [folders | e]]; simpl in *; [|exact Hone].
    rewrite app_nil_r. exact Hone.
  - intros endpoint. split; reflexivity.
Qed.

(** X2: [requestEndpoint] returns a response exactly when the request
    resolves with a status below 400, and then returns that very response;
    399 passes, 400 does not. *)
Theorem requestEndpoint_returns_below_400
    (endpoint : string) (w : World) (response : Response) :
  outcome (requestEndpoint endpoint w) = Returned response
  <-> requestUrl w (request_of w endpoint) = Resolved response /\ status response < 400.
Proof.
  rewrite requestEndpoint_cases.
  destruct (requestUrl w (request_of w endpoint)) as [r | reason].
  - destruct (Z.geb_spec (status r) 400) as [Hge | Hlt]; simpl.
    + split; [discriminate|]. intros [[= ->] Hlt]. lia.
    + split.
      * intros [= ->]. split; [reflexivity | lia].
      * intros [[= ->] _]. reflexivity.
  - simpl. split; [discriminate|]. intros [[=] _].
Qed.

(** X3: when the request is rejected, every validating method raises a
    [RestFailure] around the reason of the rejection; the validator plays no
    part in the call, and no value is returned. *)
Theorem rejected_request_reaches_the_caller
    T (m : ResourceMethod T) (w : World) (reason : Value) :
  requestUrl w (request_of w (endpoint_of m)) = Rejected reason ->
  outcome (call m w) = Thrown (RestFailure reason)
  /\ (forall validator, call m (with_validator validator w) = call m w).
Proof.
  intros Hreject. split.
  - rewrite call_unfold, requestEndpoint_cases, Hreject. reflexivity.
  - intros validator. rewrite !call_unfold, !requestEndpoint_cases.
    unfold preamble, request_of in *. simpl. rewrite Hreject. reflexivity.
Qed.

Lemma rejected_request_reaches_the_caller_witness :
  outcome (getDevices world_offline)
  = Thrown (RestFailure (VError "Error" "net::ERR_CONNECTION_REFUSED")).
Proof.
  exact (proj1 (rejected_request_reaches_the_caller _ GetDevices world_offline _ eq_refl)).
Defined.

(** X4: when the request resolves with a status below 400 and the body
    passes the method's schema, the method returns the validator's output
    and writes no error to the console. *)
Theorem valid_body_is_returned
    T (m : ResourceMethod T) (w : World) (response : Response) (output : T) :
  requestUrl w (request_of w (endpoint_of m)) = Resolved response ->
  status response < 400 ->
  safeParseAsync w T (schema_of m) (json response) = ParseSuccess output ->
  outcome (call m w) = Returned output
  /\ List.filter is_console_error (events (call m w)) = [].
Proof.
  intros Hresolve Hstatus Hparse.
  rewrite call_unfold, requestEndpoint_cases, Hresolve.
  destruct (Z.geb_spec (status response) 400); [lia|].
  rewrite Hparse. split; reflexivity.
Qed.

Lemma valid_body_is_returned_witness :
  outcome (getAllFolders world_two_folders)
  = Returned [ {| id := "notes"; path := "/home/me/notes";
                  devices := [ {| deviceInFolder_deviceID := "AAA" |};
                               {| deviceInFolder_deviceID := "BBB" |} ] |};
               {| id := "photos"; path := "/home/me/photos";
                  devices := [ {| deviceInFolder_deviceID := "BBB" |} ] |} ].
Proof.
  refine (proj1 (valid_body_is_returned _ GetAllFolders world_two_folders _ _ eq_refl _ _)).
  - simpl. lia.
  - reflexivity.
Defined.

(** X5: with the daemon configured as [localhost], a mobile client requests
    [127.0.0.1] and a desktop client [localhost]; on a phone the whole call
    is the call of a client configured with [127.0.0.1]. *)
Theorem localhost_is_loopback_on_mobile (endpoint : string) (w : World) (u : Url) :
  url (settings w) = Some u ->
  ip_address u = "localhost" ->
  req_url (request_of w endpoint)
  = protocol u +:+ "://" +:+ (if isMobileApp w then "127.0.0.1" else "localhost")
      +:+ ":" +:+ port u +:+ endpoint
  /\ (isMobileApp w = true ->
      requestEndpoint endpoint w = requestEndpoint endpoint (with_ip_address "127.0.0.1" w)).
Proof.
  intros Hurl Hip.
  assert (isMobileApp w = true ->
          request_of (with_ip_address "127.0.0.1" w) endpoint = request_of w endpoint)
    as Hsame.
  { intros Hmobile. unfold request_of, with_ip_address. simpl.
    rewrite Hurl, Hmobile. simpl. rewrite Hip. reflexivity. }
  split.
  - unfold request_of. rewrite Hurl. simpl. rewrite Hip. simpl.
    destruct (isMobileApp w); reflexivity.
  - intros Hmobile. rewrite !requestEndpoint_cases. unfold preamble.
    rewrite (Hsame Hmobile). reflexivity.
Qed.

Lemma localhost_is_loopback_on_mobile_witness :
  req_url (request_of world_phone "/rest/system/status")
  = "http://127.0.0.1:8384/rest/system/status".
Proof.
  exact (proj1 (localhost_is_loopback_on_mobile "/rest/system/status" world_phone
                  _ eq_refl eq_refl)).
Defined.

(** X6: what [ping] makes of a response it got.  From an object body it
    returns the [ping] member (so ["pong"] from the daemon's
    [{"ping": "pong"}]), [undefined] when the object has none; on a [null]
    body it raises a [TypeError], which is no [RestFailure]. *)
Theorem ping_reads_the_ping_member (w : World) (ev : list Event) (response : Response) :
  requestEndpoint "/rest/system/ping" w = (ev, Returned response) ->
  (forall members s,
     json response = JObject members ->
     lookup_member "ping" members = Some (JString s) ->
     outcome (ping w) = Returned (VString s))
  /\ (forall members,
        json response = JObject members ->
        lookup_member "ping" members = None ->
        outcome (ping w) = Returned VUndefined)
  /\ (json response = JNull ->
      exists e, outcome (ping w) = Thrown e /\ class_of e = Some "TypeError").
Proof.
  intros Hreq. rewrite ping_unfold, Hreq. repeat split.
  - intros members s -> Hping. simpl. rewrite Hping. reflexivity.
  - intros members -> Hping. simpl. rewrite Hping. reflexivity.
  - intros ->. simpl. eexists. split; reflexivity.
Qed.

Lemma ping_reads_the_ping_member_witness :
  outcome (ping world_pong) = Returned (VString "pong").
Proof.
  refine (proj1 (ping_reads_the_ping_member world_pong _ _ eq_refl) _ _ eq_refl eq_refl).
Defined.

(** X7: settings without a [url] do not stop the call: the request is sent,
    to [undefined://undefined:undefined] followed by the endpoint. *)
Theorem missing_url_requests_undefined (endpoint : string) (w : World) :
  url (settings w) = None ->
  exists param,
    requests (events (requestEndpoint endpoint w)) = [HttpRequest param]
    /\ req_url param = "undefined://undefined:undefined" +:+ endpoint.
Proof.
  intros Hurl. exists (request_of w endpoint). split.
  - apply requestEndpoint_one_request.
  - unfold request_of. rewrite Hurl. reflexivity.
Qed.

Lemma missing_url_requests_undefined_witness :
  exists param,
    requests (events (requestEndpoint "/rest/config" world_no_url)) = [HttpRequest param]
    /\ req_url param = "undefined://undefined:undefined/rest/config".
Proof. exact (missing_url_requests_undefined "/rest/config" world_no_url eq_refl). Defined.

End RestExtra.

(* ===================================================================== *)
(** ** Properties of the plugin's settings *)
(* ===================================================================== *)
Module PluginSpec.
Import Js Plugin.

Lemma loadSettings_union (data : option (gmap string Json)) :
  loadSettings data
  = match data with Some o => o ∪ DEFAULT_SETTINGS | None => DEFAULT_SETTINGS end.
Proof.
  unfold loadSettings, object_assign. simpl.
  rewrite (right_id_L ∅ (∪)). destruct data; reflexivity.
Qed.

(** X8: [loadSettings] lays the stored data over the defaults: a member of
    the stored data wins, also one the defaults do not know; every other
    member keeps its default; with nothing stored the settings are the
    defaults. *)
Theorem loadSettings_lays_data_over_defaults (data : option (gmap string Json)) (k : string) :
  loadSettings data !! k
  = match data ≫= (fun o => o !! k) with
    | Some v => Some v
    | None => DEFAULT_SETTINGS !! k
    end
  /\ loadSettings None = DEFAULT_SETTINGS.
Proof.
  rewrite !loadSettings_union. split; [|reflexivity].
  destruct data as [o|]; simpl; [|reflexivity].
  rewrite lookup_union. destruct (o !! k), (DEFAULT_SETTINGS !! k); reflexivity.
Qed.

(** X9: settings that hold every member of the defaults come back unchanged
    from [saveSettings] followed by [loadSettings]; the settings
    [loadSettings] produced are such settings. *)
Theorem settings_survive_save_and_load (settings : gmap string Json) :
  (forall k, is_Some (DEFAULT_SETTINGS !! k) -> is_Some (settings !! k)) ->
  loadSettings (saveSettings settings) = settings
  /\ (forall data,
        loadSettings (saveSettings (loadSettings data)) = loadSettings data).
Proof.
  assert (forall s : gmap string Json,
            (forall k, is_Some (DEFAULT_SETTINGS !! k) -> is_Some (s !! k)) ->
            loadSettings (saveSettings s) = s) as Hround.
  { intros s Hs. unfold saveSettings. rewrite loadSettings_union.
    apply map_eq. intros k. rewrite lookup_union.
    destruct (s !! k) as [v|] eqn:Hk; destruct (DEFAULT_SETTINGS !! k) as [d|] eqn:Hd;
      try reflexivity.
    destruct (Hs k) as [v Hv]; [rewrite Hd; eauto | congruence]. }
  intros Hsettings. split; [apply Hround; exact Hsettings|].
  intros data. apply Hround. intros k [d Hd].
  rewrite loadSettings_union. destruct data as [o|]; [|rewrite Hd; eauto].
  rewrite lookup_union, Hd. destruct (o !! k); simpl; eauto.
Qed.

Lemma settings_survive_save_and_load_witness :
  loadSettings (saveSettings (<["api_key" := JString "secret"]> DEFAULT_SETTINGS))
  = <["api_key" := JString "secret"]> DEFAULT_SETTINGS.
Proof.
  refine (proj1 (settings_survive_save_and_load
                   (<["api_key" := JString "secret"]> DEFAULT_SETTINGS) _)).
  intros k [d Hd]. unfold DEFAULT_SETTINGS in *.
  destruct (decide (k = "api_key")) as [->|Hne].
  - rewrite lookup_insert_eq. eauto.
  - rewrite lookup_insert_ne by congruence. rewrite Hd. eauto.
Defined.

End PluginSpec.

(* ===================================================================== *)
(** ** Further properties of the diff modal *)
(* ===================================================================== *)
Module DiffExtra.
Import Obsidian Diff DiffSpec.

(** An operation leaves the paths it does not touch as they were. *)
Lemma apply_op_frame (op : FileOp) (v : gmap string FileData) (p : string) :
  p ∉ touches op -> snd (apply_op op v) !! p = v !! p.
Proof.
  intros Hp. destruct op as [f | f newPath]; simpl in *.
  - destruct (v !! path f); simpl; [|reflexivity].
    apply lookup_delete_ne. intros Heq. apply Hp. rewrite <- Heq. left.
  - destruct (v !! path f) as [d|]; [|reflexivity].
    destruct (v !! newPath); [reflexivity|]. simpl.
    rewrite lookup_insert_ne by (intros Heq; apply Hp; rewrite <- Heq; right; left).
    apply lookup_delete_ne. intros Heq. apply Hp. rewrite <- Heq. left.
Qed.

Lemma settled_frame (p : string) (h h' : Host) :
  rtc settles h h' ->
  Forall (fun op => p ∉ touches op) (in_flight h) ->
  vault h' !! p = vault h !! p.
Proof.
  induction 1 as [h | h h1 h2 Hstep _ IH]; intros Hall; [reflexivity|].
  destruct Hstep as [h before after op Hin]. simpl in *.
  rewrite Hin in Hall. apply Forall_app in Hall as [Hbefore Hrest].
  apply Forall_cons in Hrest as [Hop Hafter].
  rewrite IH by (apply Forall_app; split; assumption).
  apply apply_op_frame. exact Hop.
Qed.

Lemma settle_next_settles (h : Host) (op : FileOp) (rest : list FileOp) :
  in_flight h = op :: rest -> settles h (settle_next h).
Proof.
  intros Hin. unfold settle_next. rewrite Hin.
  exact (settle_one h [] rest op Hin).
Qed.

Lemma settle_times_run (n : nat) (h : Host) :
  (n <= length (in_flight h))%nat -> rtc settles h (settle_times n h).
Proof.
  revert h. induction n as [|n IH]; intros h Hn; simpl; [apply rtc_refl|].
  destruct (in_flight h) as [|op rest] eqn:Hin; simpl in Hn; [lia|].
  eapply rtc_l; [exact (settle_next_settles h op rest Hin)|].
  apply IH. unfold settle_next. rewrite Hin. simpl. lia.
Qed.

(** Settling in the order of issue is one of the host's runs. *)
Lemma settle_in_order_run (h : Host) : rtc settles h (settle_in_order h).
Proof. apply settle_times_run. reflexivity. Qed.

(** With one operation in flight, the host has either not settled it yet or
    settled it, and then nothing more happens. *)
Lemma single_in_flight (h h' : Host) (op : FileOp) :
  in_flight h = [op] ->
  rtc settles h h' ->
  h' = h \/ h' = settle_next h.
Proof.
  intros Hin Hrun.
  inversion Hrun as [|? h1 ? Hstep Hrest]; subst; [left; reflexivity|]. right.
  inversion Hstep as [? before after op' Hsplit]; subst.
  rewrite Hin in Hsplit.
  assert (before = [] /\ op' = op /\ after = []) as (-> & -> & ->).
  { destruct before as [|b before]; simpl in Hsplit.
    - injection Hsplit as <- <-. repeat split.
    - injection Hsplit as _ Hnil. destruct before; discriminate. }
  unfold settle_next. rewrite Hin.
  inversion Hrest as [|? h2 ? Hstep2 _]; subst; [reflexivity|].
  inversion Hstep2 as [? before after op' Hsplit']. simpl in Hsplit'.
  destruct before; discriminate.
Qed.

(** X10: opening the modal again, as the colorblind toggle and "Try again"
    do, shows what it showed: the same rows, and the same modal but for the
    flag the toggle sets.  The chosen file and the diff markup are kept. *)
Theorem reopening_shows_the_same_rows
    (getDiffFiles : TFile -> DiffFiles) (this : DiffModal) (value : bool) :
  tryAgain_onClick getDiffFiles (fst (onOpen getDiffFiles this)) = onOpen getDiffFiles this
  /\ leftSide_of (snd (colorBlind_onChange getDiffFiles value (fst (onOpen getDiffFiles this))))
     = leftSide_of (snd (onOpen getDiffFiles this))
  /\ d2hColorBlind (fst (colorBlind_onChange getDiffFiles value this)) = value
  /\ fst (colorBlind_onChange getDiffFiles (d2hColorBlind this)
            (fst (colorBlind_onChange getDiffFiles value (fst (onOpen getDiffFiles this)))))
     = fst (onOpen getDiffFiles this)
  /\ currentConflictFile (fst (colorBlind_onChange getDiffFiles value this))
     = currentConflictFile this
  /\ d2hUI (fst (colorBlind_onChange getDiffFiles value this)) = d2hUI this.
Proof.
  unfold tryAgain_onClick, colorBlind_onChange, onOpen.
  destruct (diff_conflictingFiles (getDiffFiles (file this))) as [files | failure] eqn:E;
    simpl; rewrite ?E; simpl; rewrite ?E; repeat split.
Qed.

(** X11: [getDiffContent] is rejected exactly when one of the two files is
    not in the vault; otherwise it renders the patch of the two contents
    under the two basenames, first file first. *)
Theorem getDiffContent_needs_both_files
    (lib : Libraries) (v : gmap string FileData) (file1 file2 : TFile) :
  (getDiffContent lib v file1 file2 = None
   <-> v !! path file1 = None \/ v !! path file2 = None)
  /\ (forall d1 d2,
        v !! path file1 = Some d1 ->
        v !! path file2 = Some d2 ->
        getDiffContent lib v file1 file2
        = Some (html lib (createTwoFilesPatch lib (basename file1) (basename file2)
                            (content d1) (content d2)))).
Proof.
  unfold getDiffContent, read. split.
  - destruct (v !! path file1), (v !! path file2); simpl; split;
      try discriminate; try tauto; intros [H | H]; discriminate.
  - intros d1 d2 -> ->. reflexivity.
Qed.

(** X12: "Resolve conflict" on a row makes the row's file the chosen one,
    also when the diff cannot be computed; in that case the modal is not
    opened again and keeps its markup and its original, otherwise the markup
    becomes the diff of the original against the row's file. *)
Theorem resolveConflict_chooses_the_row
    (lib : Libraries) (getDiffFiles : TFile -> DiffFiles) (v : gmap string FileData)
    (row : ConflictRow) (this : DiffModal) :
  currentConflictFile (resolveConflict_onClick lib getDiffFiles v row this) = row_file row
  /\ (getDiffContent lib v (originalFile this) (row_file row) = None ->
      d2hUI (resolveConflict_onClick lib getDiffFiles v row this) = d2hUI this
      /\ originalFile (resolveConflict_onClick lib getDiffFiles v row this)
         = originalFile this)
  /\ (forall ui,
        getDiffContent lib v (originalFile this) (row_file row) = Some ui ->
        d2hUI (resolveConflict_onClick lib getDiffFiles v row this) = Some ui
        /\ originalFile (resolveConflict_onClick lib getDiffFiles v row this)
           = diff_originalFile (getDiffFiles (file this))).
Proof.
  unfold resolveConflict_onClick. simpl.
  destruct (getDiffContent lib v (originalFile this) (row_file row)) as [ui|]; simpl.
  - unfold onOpen. simpl.
    destruct (diff_conflictingFiles (getDiffFiles (file this))); simpl;
      (split; [reflexivity | split; [discriminate|]]);
      intros ? [= <-]; split; reflexivity.
  - split; [reflexivity | split; [split; reflexivity | discriminate]].
Qed.

(** X13: however the host settles what "Accept left" issued, only the
    original's path and the chosen file's path can change in the store. *)
Theorem acceptLeft_touches_two_paths
    (this : DiffModal) (v : gmap string FileData) (h' : Host) (p : string) :
  rtc settles (after_click (acceptLeft_onClick this) (idle v)) h' ->
  p <> path (originalFile this) ->
  p <> path (currentConflictFile this) ->
  vault h' !! p = v !! p.
Proof.
  intros Hrun Horiginal Hchosen.
  apply (settled_frame p _ _ Hrun). rewrite after_acceptLeft. simpl.
  repeat constructor; simpl; intros Hin;
    repeat (apply elem_of_cons in Hin as [Hin | Hin]; [congruence|]);
    inversion Hin.
Qed.

Lemma acceptLeft_touches_two_paths_witness :
  vault (settle_in_order (after_click (acceptLeft_onClick chosen_jan) (idle note_vault)))
    !! path conflict_feb
  = Some (stored conflict_feb "february").
Proof.
  refine (eq_trans
            (acceptLeft_touches_two_paths chosen_jan note_vault _ (path conflict_feb)
               (settle_in_order_run _) _ _) _).
  - discriminate.
  - discriminate.
  - reflexivity.
Defined.

(** X14: when the original and a different chosen file are both in the
    store and the host settles the two operations in the order of issue,
    both succeed: the chosen file's content and metadata end up at the
    original's path, the chosen file's own path is free, and every other
    path is as before. *)
Theorem acceptLeft_in_order_replaces_the_original
    (this : DiffModal) (v : gmap string FileData) (original chosen : FileData) :
  v !! path (originalFile this) = Some original ->
  v !! path (currentConflictFile this) = Some chosen ->
  path (currentConflictFile this) <> path (originalFile this) ->
  log (settle_in_order (after_click (acceptLeft_onClick this) (idle v)))
  = [Issued (OpDelete (originalFile this));
     Issued (OpRename (currentConflictFile this) (path (originalFile this)));
     Settled (OpDelete (originalFile this)) true;
     Settled (OpRename (currentConflictFile this) (path (originalFile this))) true]
  /\ vault (settle_in_order (after_click (acceptLeft_onClick this) (idle v)))
       !! path (originalFile this) = Some chosen
  /\ vault (settle_in_order (after_click (acceptLeft_onClick this) (idle v)))
       !! path (currentConflictFile this) = None
  /\ in_flight (settle_in_order (after_click (acceptLeft_onClick this) (idle v))) = [].
Proof.
  intros Horiginal Hchosen Hpaths.
  unfold settle_in_order. rewrite after_acceptLeft. simpl.
  unfold settle_next. simpl. rewrite Horiginal. simpl.
  rewrite lookup_delete_ne by congruence. rewrite Hchosen, lookup_delete_eq. simpl.
  split; [reflexivity|]. split; [apply lookup_insert_eq|]. split; [|reflexivity].
  rewrite lookup_insert_ne by congruence. apply lookup_delete_eq.
Qed.

Lemma acceptLeft_in_order_replaces_the_original_witness :
  vault (settle_in_order (after_click (acceptLeft_onClick chosen_jan) (idle note_vault)))
    !! "note.md"
  = Some (stored conflict_jan "january").
Proof.
  refine (proj1 (proj2 (acceptLeft_in_order_replaces_the_original chosen_jan note_vault
                          (stored note "original") (stored conflict_jan "january") _ _ _))).
  - reflexivity.
  - reflexivity.
  - discriminate.
Defined.

(** X15: once the host has settled what "Accept original" issued, the store
    is the store before without the chosen file's path; the delete is
    reported failed exactly when that path held no file, and the store is
    then unchanged. *)
Theorem acceptOriginal_frees_the_chosen_path
    (this : DiffModal) (v : gmap string FileData) (h' : Host) :
  rtc settles (after_click (acceptOriginal_onClick this) (idle v)) h' ->
  in_flight h' = [] ->
  vault h' = delete (path (currentConflictFile this)) v
  /\ log h' = [Issued (OpDelete (currentConflictFile this));
               Settled (OpDelete (currentConflictFile this))
                       (bool_decide (is_Some (v !! path (currentConflictFile this))))].
Proof.
  intros Hrun Hdone.
  destruct (single_in_flight (after_click (acceptOriginal_onClick this) (idle v)) h'
              (OpDelete (currentConflictFile this)) eq_refl Hrun)
    as [-> | ->]; [discriminate|].
  unfold settle_next. simpl.
  destruct (v !! path (currentConflictFile this)) as [d|] eqn:Hfile; simpl.
  - split; reflexivity.
  - split; [|reflexivity]. symmetry. apply delete_id. exact Hfile.
Qed.

Lemma acceptOriginal_frees_the_chosen_path_witness :
  vault (settle_in_order (after_click (acceptOriginal_onClick chosen_jan) (idle note_vault)))
  = delete (path conflict_jan) note_vault.
Proof.
  exact (proj1 (acceptOriginal_frees_the_chosen_path chosen_jan note_vault _
                  (settle_in_order_run _) eq_refl)).
Defined.

(** X16: a modal built on the original and opened, with no row's "Resolve
    conflict" clicked yet, has the original itself as its chosen file.
    "Accept original" and "Accept left" then both leave the store without
    the original: the first deletes it, the second deletes it and renames
    nothing. *)
Theorem accepting_before_any_choice_deletes_the_original
    (getDiffFiles : TFile -> DiffFiles) (f : TFile) (v : gmap string FileData) :
  diff_originalFile (getDiffFiles f) = f ->
  currentConflictFile (fst (onOpen getDiffFiles (constructor f)))
  = originalFile (fst (onOpen getDiffFiles (constructor f)))
  /\ vault (settle_in_order
              (after_click (acceptOriginal_onClick (fst (onOpen getDiffFiles (constructor f))))
                           (idle v)))
     = delete (path f) v
  /\ vault (settle_in_order
              (after_click (acceptLeft_onClick (fst (onOpen getDiffFiles (constructor f))))
                           (idle v)))
     = delete (path f) v.
Proof.
  intros Horiginal.
  assert (currentConflictFile (fst (onOpen getDiffFiles (constructor f))) = f
          /\ originalFile (fst (onOpen getDiffFiles (constructor f))) = f)
    as [Hchosen Hfile].
  { unfold onOpen. simpl.
    destruct (diff_conflictingFiles (getDiffFiles f)); simpl; split;
      try reflexivity; exact Horiginal. }
  split; [congruence|].
  unfold settle_in_order, after_click. simpl. rewrite Hchosen, Hfile.
  unfold settle_next. simpl.
  destruct (v !! path f) as [d|] eqn:Hf; simpl.
  - rewrite lookup_delete_eq. split; reflexivity.
  - rewrite Hf. split; symmetry; apply delete_id; exact Hf.
Qed.

Lemma accepting_before_any_choice_deletes_the_original_witness :
  vault (settle_in_order (after_click (acceptOriginal_onClick opened) (idle note_vault)))
    !! "note.md"
  = None.
Proof.
  refine (eq_trans
            (f_equal (fun m : gmap string FileData => m !! "note.md")
               (proj1 (proj2 (accepting_before_any_choice_deletes_the_original
                                note_controller note note_vault eq_refl)))) _).
  apply lookup_delete_eq.
Defined.

End DiffExtra.

(* ===================================================================== *)
(** ** Further properties of main.ts *)
(* ===================================================================== *)
Module ConflictFilesExtra.
Import Obsidian ConflictFiles ConflictFilesSpec.

Lemma onOpen_cons (first : TFile) (rest : list TFile) :
  onOpen (first :: rest)
  = map (fun file => {| row_text := name file;
                        shown_original := Some first;
                        shown_conflicting := file |}) rest.
Proof. unfold onOpen. rewrite slice_tail. reflexivity. Qed.

(** X17: the modal shows one row less than the vault has files, and none
    for an empty vault; every row compares against the first file of the
    listing, so no row is ever left without an original. *)
Theorem rows_compare_against_the_first_file (allFiles : list TFile) :
  length (onOpen allFiles) = pred (length allFiles)
  /\ Forall (fun row => shown_original row = allFiles !! 0%nat
                        /\ is_Some (shown_original row))
            (onOpen allFiles)
  /\ onOpen [] = [].
Proof.
  destruct allFiles as [|first rest]; [repeat split; constructor|].
  rewrite onOpen_cons. repeat split.
  - rewrite length_map. reflexivity.
  - apply Forall_forall. intros row Hrow.
    apply list_elem_of_In, in_map_iff in Hrow as (file & <- & _). simpl. eauto.
Qed.

(** X18: the click on a row, when the first file and the row's file are both
    in the vault, fills the diff column with the rendered patch of the first
    file's content against the row's, under the two basenames, and the file
    column with the content of the first file (not of the row's). *)
Theorem row_click_shows_the_first_file
    (createTwoFilesPatch : string -> string -> string -> string -> string)
    (html : string -> string) (v : gmap string FileData)
    (first : TFile) (rest : list TFile) (row : FileRow) (original conflicting : FileData) :
  row ∈ onOpen (first :: rest) ->
  v !! path first = Some original ->
  v !! path (shown_conflicting row) = Some conflicting ->
  showFileDiff createTwoFilesPatch html v (shown_original row) (shown_conflicting row)
  = Some {| diffView :=
              html (createTwoFilesPatch (basename first) (basename (shown_conflicting row))
                      (content original) (content conflicting));
            fileView := content original |}.
Proof.
  intros Hrow Hfirst Hfile. rewrite onOpen_cons in Hrow.
  apply list_elem_of_In, in_map_iff in Hrow as (file & <- & _). simpl in *.
  unfold showFileDiff, read. simpl. rewrite Hfirst, Hfile. reflexivity.
Qed.

Lemma row_click_shows_the_first_file_witness :
  exists columns,
    showFileDiff (Diff.createTwoFilesPatch Diff.plain_libraries)
                 (Diff.html Diff.plain_libraries) Diff.note_vault
                 (Some Diff.note) Diff.conflict_jan
    = Some columns
    /\ fileView columns = "original".
Proof.
  eexists. split.
  - exact (row_click_shows_the_first_file
             (Diff.createTwoFilesPatch Diff.plain_libraries)
             (Diff.html Diff.plain_libraries) Diff.note_vault
             Diff.note [Diff.conflict_jan]
             {| row_text := name Diff.conflict_jan;
                shown_original := Some Diff.note;
                shown_conflicting := Diff.conflict_jan |}
             (Diff.stored Diff.note "original")
             (Diff.stored Diff.conflict_jan "january")
             ltac:(rewrite onOpen_cons; left) eq_refl eq_refl).
  - reflexivity.
Defined.

(** X19: [showFileDiff] writes nothing exactly when it has no original to
    read or one of the two files is not in the vault. *)
Theorem showFileDiff_needs_both_files
    (createTwoFilesPatch : string -> string -> string -> string -> string)
    (html : string -> string) (v : gmap string FileData)
    (originalFile : option TFile) (conflictingFile : TFile) :
  showFileDiff createTwoFilesPatch html v originalFile conflictingFile = None
  <-> originalFile = None
      \/ (exists original, originalFile = Some original /\ v !! path original = None)
      \/ v !! path conflictingFile = None.
Proof.
  unfold showFileDiff, read.
  destruct originalFile as [original|]; simpl; [|split; auto].
  destruct (v !! path original) as [d|] eqn:Horiginal; simpl.
  - destruct (v !! path conflictingFile) eqn:Hfile; simpl.
    + split; [discriminate|]. intros [H | [(o & [= <-] & H) | H]]; congruence.
    + split; auto.
  - split; [|reflexivity]. intros _. right. left. eauto.
Qed.

(** X20: [showConflictingFiles] lists every file of the vault, in the
    vault's order, each under its basename and opening its own path: the
    filter it applies keeps every file, marked as a conflict or not. *)
Theorem showConflictingFiles_lists_every_file (files : list TFile) :
  map opens (showConflictingFiles files) = map path files
  /\ map innerText (showConflictingFiles files) = map basename files
  /\ map href (showConflictingFiles files) = map (fun f => "#" +:+ path f) files.
Proof.
  assert (List.filter (fun file => truthy file) files = files) as Hall.
  { induction files as [|f files IH]; [reflexivity|]. simpl. rewrite IH. reflexivity. }
  unfold showConflictingFiles. rewrite Hall, !map_map. simpl.
  repeat split.
Qed.

End ConflictFilesExtra.
